(** * real-time-chat-backend: the room / presence / broadcast core of server.js

    A shallow embedding of the in-memory room registry ([rooms]), the
    presence table ([onlineUsers]), the REST room routes and the socket.io
    handlers of [server/server.js], followed by the properties of the
    specification that concern them.

    Conventions of the embedding.
    - A JavaScript string is a [string]; every character stands for one
      code unit below 256 (Latin-1 reading).  The fields of a payload are
      strings.  For the fields the code only tests with [!x] or [(x || '')]
      (room names on create, the fields of a chat message, the fields of
      the authentication routes) the empty string also stands for an absent
      field, which those tests do not tell from [''].
    - [onlineUsers] is a plain object used as a dictionary from room name to
      an array of usernames; its own entries are a [gmap string (list
      string)].  Reading a name that the object inherits from
      [Object.prototype] and has no entry for yields a value that is not an
      array ([reads_inherited]); [joinRoom] and [disconnect] throw on it.
    - The socket.io server is the map [sockets] from [socket.id] to the
      per-socket data the handlers read and write: the rooms the socket has
      joined (every socket is in the room named by its own id), and the
      [username] / [room] fields that [joinRoom] stores on the socket.
    - Every emission is resolved, at the moment it is made, to the list of
      [(recipient id, event)] pairs it produces.
    - An [await] on the message collection receives the store's answer as an
      argument of the handler ([store_reply]): the promise either resolves
      with a value or rejects. *)

From Stdlib Require Import ZArith Ascii String.
From stdpp Require Import gmap strings list sorting.

Local Open Scope string_scope.
Local Open Scope list_scope.

(** ** JavaScript strings *)

Module Js.

(** [WhiteSpace] and [LineTerminator] code units below 256: TAB, LF, VT,
    FF, CR, SP and NBSP.  These are what [String.prototype.trim] strips. *)
Definition is_whitespace (c : ascii) : bool :=
  let n := nat_of_ascii c in
  ((9 <=? n)%nat && (n <=? 13)%nat) || (n =? 32)%nat || (n =? 160)%nat.

Fixpoint trimStart (s : string) : string :=
  match s with
  | EmptyString => EmptyString
  | String c s' => if is_whitespace c then trimStart s' else s
  end.

Fixpoint trimEnd (s : string) : string :=
  match s with
  | EmptyString => EmptyString
  | String c s' =>
      match trimEnd s' with
      | EmptyString => if is_whitespace c then EmptyString else String c EmptyString
      | t => String c t
      end
  end.

(** [s.trim()] *)
Definition trim (s : string) : string := trimEnd (trimStart s).

(** [!s] for a string [s]: only the empty string is falsy. *)
Definition falsy (s : string) : bool :=
  match s with
  | EmptyString => true
  | String _ _ => false
  end.

(** First and last code unit of a string, when it has one. *)
Definition first_char (s : string) : option ascii :=
  match s with
  | EmptyString => None
  | String c _ => Some c
  end.

Fixpoint last_char (s : string) : option ascii :=
  match s with
  | EmptyString => None
  | String c s' =>
      match last_char s' with
      | None => Some c
      | Some d => Some d
      end
  end.

(** A string is trimmed when neither end is a whitespace code unit. *)
Definition trimmed (s : string) : Prop :=
  (∀ c, first_char s = Some c → is_whitespace c = false) ∧
  (∀ c, last_char s = Some c → is_whitespace c = false).

(** [arr.includes(x)] on an array of strings. *)
Definition includes (l : list string) (x : string) : bool :=
  bool_decide (x ∈ l).

End Js.

Import Js.

(** ** Data model *)

(** A document of the [Message] collection (the fields the handlers use). *)
Record message := Message {
  msg_room : string;
  msg_username : string;
  msg_text : string;
  createdAt : Z
}.

(** Payload of the callback of [createRoom]. *)
Inductive ack :=
  | AckError (error : string)
  | AckSuccess (rooms : list string).

(** Events the server sends to clients. *)
Inductive server_event :=
  | chatHistoryEv (history : list message)
  | onlineUsersEv (users : list string)
  | roomsUpdatedEv (rooms : list string)
  | chatMessageEv (username text : string) (created : Z)
  | typingEv (username : string) (isTyping : bool)
  | ackEv (a : ack).

(** One event handed to one connection. *)
Definition delivery : Type := string * server_event.

(** Per-socket data. *)
Record socket := Socket {
  sock_rooms : gset string;
  sock_username : option string;
  sock_room : option string
}.

(** The process state: the two module-level variables, the connected
    sockets and the contents of the message collection in insertion order. *)
Record hub := Hub {
  rooms : list string;
  onlineUsers : gmap string (list string);
  sockets : gmap string socket;
  messages : list message
}.

Definition set_rooms (r : list string) (st : hub) : hub :=
  Hub r (onlineUsers st) (sockets st) (messages st).
Definition set_onlineUsers (o : gmap string (list string)) (st : hub) : hub :=
  Hub (rooms st) o (sockets st) (messages st).
Definition set_sockets (s : gmap string socket) (st : hub) : hub :=
  Hub (rooms st) (onlineUsers st) s (messages st).
Definition set_messages (m : list message) (st : hub) : hub :=
  Hub (rooms st) (onlineUsers st) (sockets st) m.

(** [let rooms = ["main", "chil", "work", "fun"]] *)
Definition initial_rooms : list string := ["main"; "chil"; "work"; "fun"].

(** State at process start: no presence entry, no connection. *)
Definition initial_hub (stored : list message) : hub :=
  Hub initial_rooms ∅ ∅ stored.

(** Answer of an awaited store operation. *)
Inductive store_reply (A : Type) :=
  | Resolved (a : A)
  | Rejected (err : string).
Arguments Resolved {A} a.
Arguments Rejected {A} err.

(** How the promise of an [async] handler settles. *)
Inductive completion :=
  | Fulfilled
  | RejectedWith (err : string).

(** HTTP answers of the room routes. *)
Inductive http_body :=
  | BodyError (error : string)
  | BodySuccess (rooms : list string)
  | BodyRooms (rooms : list string).

Record http_response := Response { status : nat; body : http_body }.

(** ** Emission primitives *)

(** [socket.emit(ev)]: the event reaches the socket while it is connected;
    on a socket that has gone it is dropped. *)
Definition socket_emit (id : string) (st : hub) (ev : server_event) : list delivery :=
  if decide (is_Some (sockets st !! id)) then [(id, ev)] else [].

(** [io.emit(ev)]: every connected socket. *)
Definition io_emit (st : hub) (ev : server_event) : list delivery :=
  (λ p : string * socket, (p.1, ev)) <$> map_to_list (sockets st).

(** [io.to(room).emit(ev)]: every socket that has joined [room]. *)
Definition io_to (room : string) (st : hub) (ev : server_event) : list delivery :=
  (λ p : string * socket, (p.1, ev)) <$>
    filter (λ p : string * socket, room ∈ sock_rooms p.2) (map_to_list (sockets st)).

(** [socket.to(room).emit(ev)]: every socket that has joined [room], the
    emitting socket excepted. *)
Definition socket_to (id room : string) (st : hub) (ev : server_event) : list delivery :=
  (λ p : string * socket, (p.1, ev)) <$>
    filter (λ p : string * socket, p.1 ≠ id ∧ room ∈ sock_rooms p.2)
           (map_to_list (sockets st)).

(** ** REST room routes *)

(** [app.get("/rooms")] *)
Definition get_rooms (st : hub) : http_response :=
  Response 200 (BodyRooms (rooms st)).

(** [app.post("/rooms")] with [req.body.name = name]. *)
Definition post_rooms (name : string) (st : hub) : hub * list delivery * http_response :=
  if falsy name then (st, [], Response 400 (BodyError "Room name required"))
  else if includes (rooms st) name then
    (st, [], Response 400 (BodyError "Room already exists"))
  else
    let st1 := set_rooms (rooms st ++ [name]) st in
    let st2 := set_onlineUsers (<[name := []]> (onlineUsers st1)) st1 in
    (st2, io_emit st2 (roomsUpdatedEv (rooms st2)), Response 200 (BodySuccess (rooms st2))).

(** [const protectedRooms = ["general", "random", "tech", "music"]] *)
Definition protectedRooms : list string := ["general"; "random"; "tech"; "music"].

(** [app.delete("/rooms/:name")] with [req.params.name = roomName]. *)
Definition delete_rooms (roomName : string) (st : hub) : hub * list delivery * http_response :=
  if includes protectedRooms roomName then
    (st, [], Response 400 (BodyError "Default rooms cannot be deleted"))
  else if negb (includes (rooms st) roomName) then
    (st, [], Response 404 (BodyError "Room not found"))
  else
    let st1 := set_rooms (filter (λ r, r ≠ roomName) (rooms st)) st in
    let st2 :=
      match onlineUsers st1 !! roomName with
      | Some _ => set_onlineUsers (delete roomName (onlineUsers st1)) st1
      | None => st1
      end in
    (st2, io_emit st2 (roomsUpdatedEv (rooms st2)), Response 200 (BodySuccess (rooms st2))).

(** ** The message collection *)

(** [Message.find({ room })]: the documents of a room, in insertion order. *)
Definition find_room (room : string) (coll : list message) : list message :=
  filter (λ m, msg_room m = room) coll.

(** Newest first: the order [.sort({ createdAt: -1 })] asks for. *)
Definition newer_or_equal (m1 m2 : message) : Prop := (createdAt m2 ≤ createdAt m1)%Z.
(** Oldest first. *)
Definition older_or_equal (m1 m2 : message) : Prop := (createdAt m1 ≤ createdAt m2)%Z.

(** One way of sorting by [createdAt] descending: a stable insertion sort,
    which leaves documents with equal [createdAt] in insertion order (the
    order in which a scan of the declared index [{ room: 1, createdAt: -1 }]
    meets them).  [foldr] hands [insert_desc] a document older in insertion
    order than all of [l], which therefore goes in front of the first
    document that is not newer. *)
Fixpoint insert_desc (m : message) (l : list message) : list message :=
  match l with
  | [] => [m]
  | x :: l' =>
      if decide (createdAt x ≤ createdAt m)%Z then m :: l
      else x :: insert_desc m l'
  end.

Definition stable_sort_desc (l : list message) : list message :=
  foldr insert_desc [] l.


(** The spec's words for the history of a room: its most recent [n]
    messages, oldest first, messages with equal stamps in insertion order.
    On a log kept in insertion order these are its last [n] entries. *)
Definition recent_in_insertion_order (room : string) (n : nat)
    (coll : list message) : list message :=
  drop (length (find_room room coll) - n) (find_room room coll).

(** Stamps that strictly increase along a list. *)
Definition strictly_older (m1 m2 : message) : Prop := (createdAt m1 < createdAt m2)%Z.

(** [Message.create({ room, username, text })] once it has resolved with a
    document stamped [created]. *)
Definition insert_message (room username text : string) (created : Z)
    (coll : list message) : list message :=
  coll ++ [Message room username text created].

(** ** Presence table *)

(** Lines 233-235 of [joinRoom]:
    [if (!onlineUsers[room]) onlineUsers[room] = [];
     if (!onlineUsers[room].includes(username)) onlineUsers[room].push(username);] *)
Definition presence_join (room username : string)
    (ou : gmap string (list string)) : gmap string (list string) :=
  let ou1 :=
    match ou !! room with
    | Some _ => ou
    | None => <[room := []]> ou
    end in
  let users := default [] (ou1 !! room) in
  if includes users username then ou1
  else <[room := users ++ [username]]> ou1.

(** The property names every plain object inherits from [Object.prototype].
    [onlineUsers] is created as [{}], so reading [onlineUsers[k]] for one of
    these names, when the object has no entry of its own for it, yields a
    truthy value that is not an array. *)
Definition object_prototype_keys : list string :=
  ["constructor"; "__defineGetter__"; "__defineSetter__"; "hasOwnProperty";
   "__lookupGetter__"; "__lookupSetter__"; "isPrototypeOf"; "propertyIsEnumerable";
   "toString"; "valueOf"; "__proto__"; "toLocaleString"].

Definition inherited (key : string) : bool := includes object_prototype_keys key.

(** [onlineUsers[room]] is an inherited value, not an array of the table:
    [!onlineUsers[room]] is false and [.includes] / [.filter] is not a
    function. *)
Definition reads_inherited (room : string) (ou : gmap string (list string)) : bool :=
  inherited room && bool_decide (ou !! room = None).

(** [onlineUsers[room]] read as an array (empty when the entry is absent). *)
Definition snapshot (room : string) (ou : gmap string (list string)) : list string :=
  default [] (ou !! room).

(** [onlineUsers[room].filter((u) => u !== username)], where [username] is
    the socket's field and may be [undefined]. *)
Definition without_user (username : option string) (users : list string) : list string :=
  filter (λ u, Some u ≠ username) users.

(** ** Socket.io handlers *)

(** A socket as [io.on("connection")] receives it: joined to the room of its
    own id, no [username], no [room]. *)
Definition fresh_socket (id : string) : socket := Socket {[ id ]} None None.

Definition connect (id : string) (st : hub) : hub :=
  set_sockets (<[id := fresh_socket id]> (sockets st)) st.

(** [socket.join(room); socket.username = username; socket.room = room;] for
    a payload whose [room] and [username] are strings. *)
Definition bind_socket (room username : string) (s : socket) : socket :=
  Socket ({[ room ]} ∪ sock_rooms s) (Some username) (Some room).

(** [socket.on("joinRoom")] runs in two turns of the event loop.  The first
    binds the socket and issues the history query. *)
Definition joinRoom_begin (id room username : string) (st : hub) : hub :=
  set_sockets (alter (bind_socket room username) id (sockets st)) st.

(** The second turn starts when the awaited query settles with [reply], in
    the state the process has by then.  For a room name that reads an
    inherited value, line 234 throws after the history has been sent. *)
Definition joinRoom_resume (id room username : string) (reply : store_reply (list message))
    (st : hub) : hub * list delivery * completion :=
  match reply with
  | Rejected err => (st, [], RejectedWith err)
  | Resolved history =>
      let out1 := socket_emit id st (chatHistoryEv (reverse history)) in
      if reads_inherited room (onlineUsers st) then
        (st, out1, RejectedWith "TypeError: onlineUsers[room].includes is not a function")
      else
        let st1 := set_onlineUsers (presence_join room username (onlineUsers st)) st in
        let out2 := io_to room st1 (onlineUsersEv (snapshot room (onlineUsers st1))) in
        (st1, out1 ++ out2, Fulfilled)
  end.

(** The handler with nothing else running between its two turns. *)
Definition joinRoom (id room username : string) (reply : store_reply (list message))
    (st : hub) : hub * list delivery * completion :=
  joinRoom_resume id room username reply (joinRoom_begin id room username st).

(** The store behind the [Message] model: reachable, with the function it
    sorts a result by [createdAt] descending with, or failing with an error. *)
Inductive store :=
  | StoreUp (sort : list message → list message)
  | StoreDown (err : string).

(** What a store's sort has to do for [.sort({ createdAt: -1 })]: rearrange
    the documents so that [createdAt] never increases.  The order of
    documents with equal [createdAt] is the store's own. *)
Definition sorts_newest_first (sort : list message → list message) : Prop :=
  ∀ l, sort l ≡ₚ l ∧ Sorted newer_or_equal (sort l).

(** [await Message.find({ room }).sort({ createdAt: -1 }).limit(n).lean()]
    on the collection [coll]. *)
Definition find_sort_limit_lean (db : store) (room : string) (n : nat)
    (coll : list message) : store_reply (list message) :=
  match db with
  | StoreUp sort => Resolved (take n (sort (find_room room coll)))
  | StoreDown err => Rejected err
  end.

(** [socket.on("joinRoom")] with its query, lines 220-238: the query is for
    the room of the payload, newest first, 50 at most, and nothing else runs
    between the two turns. *)
Definition joinRoom_handler (db : store) (id room username : string) (st : hub)
    : hub * list delivery * completion :=
  joinRoom id room username (find_sort_limit_lean db room 50 (messages st)) st.

(** [cb && cb(payload)]: the acknowledgement goes to the socket that sent the
    event, when it supplied a callback. *)
Definition callback (id : string) (has_cb : bool) (a : ack) : list delivery :=
  if has_cb then [(id, ackEv a)] else [].

(** [socket.on('createRoom')].  On string arguments nothing in the [try]
    block throws, so the [catch] branch is not entered. *)
Definition createRoom (id name : string) (has_cb : bool) (st : hub) : hub * list delivery :=
  let n := trim name in
  if falsy n then (st, callback id has_cb (AckError "Room name required"))
  else if includes (rooms st) n then
    (st, callback id has_cb (AckError "Room already exists"))
  else
    let st1 := set_rooms (rooms st ++ [n]) st in
    let st2 := set_onlineUsers (<[n := []]> (onlineUsers st1)) st1 in
    (st2, io_emit st2 (roomsUpdatedEv (rooms st2)) ++
          callback id has_cb (AckSuccess (rooms st2))).

(** [socket.on("chatMessage")], after the guard: the turn that starts when
    the awaited [Message.create] settles with [reply], the [createdAt] of the
    new document. *)
Definition chatMessage_resume (room username text : string) (reply : store_reply Z)
    (st : hub) : hub * list delivery * completion :=
  match reply with
  | Rejected err => (st, [], RejectedWith err)
  | Resolved created =>
      let st1 := set_messages (insert_message room username text created (messages st)) st in
      (st1, io_to room st1 (chatMessageEv username text created), Fulfilled)
  end.

(** [socket.on("chatMessage")] with nothing else running during the await. *)
Definition chatMessage (id room username text : string) (reply : store_reply Z)
    (st : hub) : hub * list delivery * completion :=
  if falsy room || falsy username || falsy text then (st, [], Fulfilled)
  else chatMessage_resume room username text reply st.

(** [socket.on("typing")] *)
Definition typing (id room username : string) (isTyping : bool) (st : hub)
    : hub * list delivery :=
  (st, socket_to id room st (typingEv username isTyping)).

(** [socket.on("disconnect")].  socket.io fires the event after the socket
    has left its rooms and the namespace, so the socket is no longer among
    the recipients of [io.to(room)].  When [onlineUsers[room]] reads an
    inherited value, [.filter] throws at line 276 before anything is changed
    or sent: state and output are those of the branch without an entry, and
    [disconnect_throws] tells the case apart. *)
Definition disconnect (id : string) (st : hub) : hub * list delivery :=
  let st0 := set_sockets (delete id (sockets st)) st in
  match sockets st !! id with
  | None => (st0, [])
  | Some s =>
      match sock_room s with
      | None => (st0, [])
      | Some room =>
          if falsy room then (st0, [])
          else
            match onlineUsers st0 !! room with
            | None => (st0, [])
            | Some users =>
                let users' := without_user (sock_username s) users in
                let st1 := set_onlineUsers (<[room := users']> (onlineUsers st0)) st0 in
                (st1, io_to room st1 (onlineUsersEv users'))
            end
      end
  end.

(** The handler of [disconnect] ends with a [TypeError] at line 276. *)
Definition disconnect_throws (id : string) (st : hub) : bool :=
  match sockets st !! id ≫= sock_room with
  | Some room => negb (falsy room) && reads_inherited room (onlineUsers st)
  | None => false
  end.

(** ** Runs of the room registry *)

(** The operations that create or delete rooms. *)
Inductive registry_op :=
  | PostRoom (name : string)
  | DeleteRoom (name : string)
  | CreateRoomEvent (id name : string) (has_cb : bool).

Definition apply_op (op : registry_op) (st : hub) : hub :=
  match op with
  | PostRoom name => (post_rooms name st).1.1
  | DeleteRoom name => (delete_rooms name st).1.1
  | CreateRoomEvent id name has_cb => (createRoom id name has_cb st).1
  end.

Definition apply_ops (ops : list registry_op) (st : hub) : hub :=
  foldl (λ s op, apply_op op s) st ops.

(** ** Turns of the event loop *)

(** One turn of the process: a socket.io event, one of the two halves of
    [joinRoom], or a request to a room route.  [chatMessage] reads no process
    state before its [await], so its guard and its second half are one turn,
    taken when [Message.create] settles. *)
Inductive turn :=
  | TConnect (id : string)
  | TJoinBegin (id room username : string)
  | TJoinResume (id room username : string) (reply : store_reply (list message))
  | TCreateRoom (id name : string) (has_cb : bool)
  | TChatMessage (id room username text : string) (reply : store_reply Z)
  | TTyping (id room username : string) (isTyping : bool)
  | TDisconnect (id : string)
  | TPostRoom (name : string)
  | TDeleteRoom (name : string).

Definition turn_step (t : turn) (st : hub) : hub * list delivery :=
  match t with
  | TConnect id => (connect id st, [])
  | TJoinBegin id room username => (joinRoom_begin id room username st, [])
  | TJoinResume id room username reply => (joinRoom_resume id room username reply st).1
  | TCreateRoom id name has_cb => createRoom id name has_cb st
  | TChatMessage id room username text reply => (chatMessage id room username text reply st).1
  | TTyping id room username isTyping => typing id room username isTyping st
  | TDisconnect id => disconnect id st
  | TPostRoom name => (post_rooms name st).1
  | TDeleteRoom name => (delete_rooms name st).1
  end.

Fixpoint run (ts : list turn) (st : hub) : hub * list delivery :=
  match ts with
  | [] => (st, [])
  | t :: ts' =>
      let r1 := turn_step t st in
      let r2 := run ts' r1.1 in
      (r2.1, r1.2 ++ r2.2)
  end.

(** The room list holds no name twice and never the empty name. *)
Definition registry_ok (st : hub) : Prop :=
  NoDup (rooms st) ∧ EmptyString ∉ rooms st.

(** No presence list holds a username twice. *)
Definition presence_ok (st : hub) : Prop :=
  ∀ room users, onlineUsers st !! room = Some users → NoDup users.

(** ** REST history route *)

Definition is_digit (c : ascii) : bool :=
  let n := nat_of_ascii c in (48 <=? n)%nat && (n <=? 57)%nat.

Definition digit_value (c : ascii) : Z := Z.of_nat (nat_of_ascii c) - 48.

(** Value of the longest prefix of decimal digits; [acc] is the value read
    so far, [None] while no digit has been read. *)
Fixpoint digits_prefix (s : string) (acc : option Z) : option Z :=
  match s with
  | EmptyString => acc
  | String c s' =>
      if is_digit c then digits_prefix s' (Some (10 * default 0%Z acc + digit_value c)%Z)
      else acc
  end.

(** [parseInt(s, 10)] as a mathematical integer, [None] for [NaN]: leading
    whitespace is skipped, one sign is read, then the longest run of digits.
    (The rounding of integers beyond 2^53 to a double is not represented.) *)
Definition parseInt10 (s : string) : option Z :=
  match trimStart s with
  | String "-"%char s' => Z.opp <$> digits_prefix s' None
  | String "+"%char s' => digits_prefix s' None
  | s' => digits_prefix s' None
  end.

(** [Math.min(parseInt(req.query.limit || "50", 10), 200)] for a query
    parameter that is a string, empty when absent. *)
Definition history_limit (query : string) : option Z :=
  (λ v, Z.min v 200) <$> parseInt10 (if falsy query then "50" else query).

(** What [app.get("/rooms/:room/messages")] does with the settled query,
    line 156: [res.json(docs.reverse())].  The route has no [try]: a
    rejection leaves the handler without a response. *)
Definition get_messages (reply : store_reply (list message))
    : option (list message) * completion :=
  match reply with
  | Resolved docs => (Some (reverse docs), Fulfilled)
  | Rejected err => (None, RejectedWith err)
  end.

(** The route with its query, lines 149-157, once [requireAuth] has let the
    request through: the query is for the room of the
    path, newest first, cut at the computed limit.  What the store makes of a
    limit that is not a number or is below 1 is not represented: the result
    is [None] there. *)
Definition get_messages_route (db : store) (room query : string) (coll : list message)
    : option (option (list message) * completion) :=
  match history_limit query with
  | Some v =>
      if decide (1 ≤ v)%Z
      then Some (get_messages (find_sort_limit_lean db room (Z.to_nat v) coll))
      else None
  | None => None
  end.

(** ** Authentication routes *)


(** The calls a route makes to the [User] model and to the helpers imported
    from [auth.js], with their arguments, in the order they are made. *)
Inductive auth_call :=
  | CallFindOne (username : string)
  | CallHashPassword (password : string)
  | CallCreate (username : string) (email : option string) (password : string)
  | CallVerifyPassword (password hash : string)
  | CallSignToken (id username : string) (expiresIn : option string).

Inductive auth_body :=
  | AuthError (error : string)
  | AuthSession (token id username : string) (email : option string).

Record auth_response := AuthResponse { auth_status : nat; auth_payload : auth_body }.



(** [app.post("/auth/guest")] *)
Definition guest (username : string) (token : store_reply string)
    : list auth_call * auth_response :=
  let username := trim username in
  if falsy username || (String.length username <? 3)%nat then
    ([], AuthResponse 400 (AuthError "username required"))
  else
    let id := String.append "guest:" username in
    let c1 := [CallSignToken id username (Some "7d")] in
    match token with
    | Rejected _ => (c1, AuthResponse 500 (AuthError "guest failed"))
    | Resolved t => (c1, AuthResponse 200 (AuthSession t id username None))
    end.

(** Every connected socket is in the room of its own id, and in the room it
    carries, if it carries one. *)
Definition sockets_ok (st : hub) : Prop :=
  ∀ id s, sockets st !! id = Some s →
    id ∈ sock_rooms s ∧ ∀ room, sock_room s = Some room → room ∈ sock_rooms s.

(** ** Example states *)

(** Two sockets, [A] and [B], connected to a fresh process with an empty
    collection, both joined to [main] as [alice]. *)
Definition two_in_main : hub :=
  let st0 := connect "B" (connect "A" (initial_hub [])) in
  let st1 := (joinRoom "A" "main" "alice" (Resolved []) st0).1.1 in
  (joinRoom "B" "main" "alice" (Resolved []) st1).1.1.

(** A collection with messages of two rooms and distinct stamps, and one
    connected socket. *)
Definition three_stored : hub :=
  connect "A" (initial_hub [Message "main" "alice" "one" 10;
                            Message "work" "bob" "two" 20;
                            Message "main" "bob" "three" 30]).

(** * Properties *)

(** ** Who receives an emission *)

Section recipients.
Implicit Types (st : hub) (id room : string) (ev : server_event).

Lemma elem_of_io_emit st ev rid ev' :
  (rid, ev') ∈ io_emit st ev ↔ ev' = ev ∧ is_Some (sockets st !! rid).
Proof.
  unfold io_emit. rewrite list_elem_of_fmap. split.
  - intros [[k s] [Heq Hin]]. simplify_eq/=.
    apply elem_of_map_to_list in Hin. eauto.
  - intros [-> [s Hs]]. exists (rid, s). split; [done|].
    by apply elem_of_map_to_list.
Qed.

Lemma elem_of_io_to room st ev rid ev' :
  (rid, ev') ∈ io_to room st ev ↔
  ev' = ev ∧ ∃ s, sockets st !! rid = Some s ∧ room ∈ sock_rooms s.
Proof.
  unfold io_to. rewrite list_elem_of_fmap. split.
  - intros [[k s] [Heq Hin]]. simplify_eq/=.
    apply list_elem_of_filter in Hin as [Hroom Hin].
    apply elem_of_map_to_list in Hin. eauto.
  - intros [-> (s & Hs & Hroom)]. exists (rid, s). split; [done|].
    apply list_elem_of_filter. split; [done|]. by apply elem_of_map_to_list.
Qed.

Lemma elem_of_socket_to id room st ev rid ev' :
  (rid, ev') ∈ socket_to id room st ev ↔
  ev' = ev ∧ rid ≠ id ∧ ∃ s, sockets st !! rid = Some s ∧ room ∈ sock_rooms s.
Proof.
  unfold socket_to. rewrite list_elem_of_fmap. split.
  - intros [[k s] [Heq Hin]]. simplify_eq/=.
    apply list_elem_of_filter in Hin as [[Hne Hroom] Hin].
    apply elem_of_map_to_list in Hin. eauto.
  - intros [-> (Hne & s & Hs & Hroom)]. exists (rid, s). split; [done|].
    apply list_elem_of_filter. split; [done|]. by apply elem_of_map_to_list.
Qed.

(** A broadcast reaches a socket at most once. *)
Lemma NoDup_io_to room st ev : NoDup (io_to room st ev).
Proof.
  unfold io_to. apply NoDup_fmap_2_strong.
  - intros [k1 s1] [k2 s2] H1 H2 Heq. simplify_eq/=.
    apply list_elem_of_filter in H1 as [_ H1], H2 as [_ H2].
    apply elem_of_map_to_list in H1, H2. by simplify_eq.
  - apply NoDup_filter, NoDup_map_to_list.
Qed.
End recipients.

(** ** Strings *)

Lemma falsy_empty s : falsy s = true ↔ s = EmptyString.
Proof. destruct s; simpl; split; congruence. Qed.

Lemma trimStart_first s c :
  first_char (trimStart s) = Some c → is_whitespace c = false.
Proof.
  induction s as [|a s IH]; simpl; [done|].
  destruct (is_whitespace a) eqn:Ha; [done|].
  simpl. intros [= <-]. done.
Qed.

Lemma trimEnd_last s c :
  last_char (trimEnd s) = Some c → is_whitespace c = false.
Proof.
  revert c. induction s as [|a s IH]; intros c; simpl; [done|].
  destruct (trimEnd s) as [|b t] eqn:Ht.
  - destruct (is_whitespace a) eqn:Ha; simpl; [done|]. by intros [= <-].
  - simpl in *. destruct (last_char t) as [d|]; intros [= <-]; by apply IH.
Qed.

Lemma trimEnd_first s c :
  first_char (trimEnd s) = Some c → first_char s = Some c.
Proof.
  destruct s as [|a s]; simpl; [done|].
  destruct (trimEnd s); [destruct (is_whitespace a)|]; simpl; congruence.
Qed.

Lemma trim_trimmed s : trimmed (trim s).
Proof.
  split; intros c Hc.
  - apply trimEnd_first in Hc. by eapply trimStart_first.
  - by eapply trimEnd_last.
Qed.

(** ** The room registry *)

(** Closes [x ∉ l] for a string literal [x] and a list of string literals. *)
Ltac not_listed :=
  let Hin := fresh "Hin" in
  intros Hin;
  repeat (apply elem_of_cons in Hin as [Hin|Hin]; [discriminate Hin|]);
  by apply elem_of_nil in Hin.

Lemma filter_ne_snoc (l : list string) (r : string) :
  r ∉ l → filter (λ x, x ≠ r) (l ++ [r]) = l.
Proof.
  intros Hr. rewrite filter_app, filter_cons_False, filter_nil, app_nil_r
    by (by intros ?).
  induction l as [|x l IH]; [done|].
  apply not_elem_of_cons in Hr as [Hne Hr].
  rewrite filter_cons_True by done. by rewrite IH.
Qed.

(** The guard of the delete route: a name of [protectedRooms] is refused in
    every state, and nothing changes. *)
Lemma delete_protected_refused name st :
  name ∈ protectedRooms →
  delete_rooms name st = (st, [], Response 400 (BodyError "Default rooms cannot be deleted")).
Proof.
  intros Hin. unfold delete_rooms, includes. by rewrite bool_decide_eq_true_2.
Qed.

(** Outside the guard's list, creating a fresh room over REST and deleting it
    again restores the room list and leaves no presence entry. *)
Lemma post_delete_round_trip r st :
  falsy r = false → r ∉ protectedRooms → r ∉ rooms st →
  let created := post_rooms r st in
  let deleted := delete_rooms r created.1.1 in
  status created.2 = 200 ∧ status deleted.2 = 200 ∧
  rooms deleted.1.1 = rooms st ∧
  onlineUsers deleted.1.1 !! r = None.
Proof.
  intros Hr Hprot Hfresh. unfold post_rooms, delete_rooms, includes.
  rewrite Hr. rewrite (bool_decide_eq_false_2 (r ∈ rooms st)) by done. simpl.
  rewrite (bool_decide_eq_false_2 (r ∈ protectedRooms)) by done.
  rewrite bool_decide_eq_true_2 by (apply elem_of_app; right; by left). simpl.
  rewrite lookup_insert_eq. simpl.
  rewrite filter_ne_snoc by done. by rewrite lookup_delete_eq.
Qed.

(** The socket handler stores the trimmed name: every name it adds to the
    room list is free of leading and trailing whitespace. *)
Lemma createRoom_rooms id name has_cb st :
  rooms (createRoom id name has_cb st).1 = rooms st ∨
  (rooms (createRoom id name has_cb st).1 = rooms st ++ [trim name] ∧
   falsy (trim name) = false ∧ trim name ∉ rooms st).
Proof.
  unfold createRoom, includes. destruct (falsy (trim name)) eqn:Hn; [by left|].
  case_bool_decide; [by left|]. right. done.
Qed.

Lemma createRoom_keeps_trimmed id name has_cb st :
  Forall trimmed (rooms st) → Forall trimmed (rooms (createRoom id name has_cb st).1).
Proof.
  intros Hst. destruct (createRoom_rooms id name has_cb st) as [->|[-> _]]; [done|].
  apply Forall_app. split; [done|]. repeat constructor; apply trim_trimmed.
Qed.

Lemma post_rooms_rooms name st :
  rooms (post_rooms name st).1.1 = rooms st ∨
  rooms (post_rooms name st).1.1 = rooms st ++ [name].
Proof.
  unfold post_rooms, includes. destruct (falsy name); [by left|].
  case_bool_decide; [by left|by right].
Qed.

Lemma delete_rooms_rooms name st :
  rooms (delete_rooms name st).1.1 = rooms st ∨
  ((name ∉ protectedRooms) ∧
   rooms (delete_rooms name st).1.1 = filter (λ r, r ≠ name) (rooms st)).
Proof.
  unfold delete_rooms, includes. case_bool_decide as Hprot; [by left|].
  case_bool_decide; simpl; [|by left]. right. split; [done|].
  by destruct (onlineUsers st !! name).
Qed.

(** What the guard does achieve: a name of [protectedRooms] that is in the
    room list stays there under every sequence of registry operations. *)
Lemma guarded_name_stays name ops st :
  name ∈ protectedRooms → name ∈ rooms st → name ∈ rooms (apply_ops ops st).
Proof.
  intros Hprot. revert st. unfold apply_ops.
  induction ops as [|op ops IH]; intros st Hin; simpl; [done|].
  apply IH. destruct op as [n|n|id n cb]; simpl.
  - destruct (post_rooms_rooms n st) as [->| ->]; [done|].
    apply elem_of_app. by left.
  - destruct (delete_rooms_rooms n st) as [->|[Hn ->]]; [done|].
    apply list_elem_of_filter. split; [|done]. by intros ->.
  - destruct (createRoom_rooms id n cb st) as [->|[-> _]]; [done|].
    apply elem_of_app. by left.
Qed.

(** C1 (the code departs from the claim): none of the four rooms the process
    starts with is in the list the delete route guards, so [DELETE /rooms/:name]
    succeeds on each of them in the initial state and the name leaves the
    registry; [main] is absent in a state reached by one delete. *)
Theorem C1_initial_rooms_are_deletable (stored : list message) :
  Forall (λ name,
    includes protectedRooms name = false ∧
    status (delete_rooms name (initial_hub stored)).2 = 200 ∧
    name ∉ rooms (delete_rooms name (initial_hub stored)).1.1) initial_rooms ∧
  rooms (apply_ops [DeleteRoom "main"] (initial_hub stored)) = ["chil"; "work"; "fun"].
Proof.
  split; [|reflexivity].
  repeat constructor; simpl; not_listed.
Qed.

(** C2 (the code departs from the claim): when the store rejects, neither
    handler catches the rejection.  [chatMessage] emits nothing at all and its
    promise is rejected with the store's error; [joinRoom] has already bound
    the socket, emits nothing, leaves presence as it was and is rejected
    too.  No structured error reaches the calling connection. *)
Theorem C2_store_rejection_is_not_caught (id room username err : string) (st : hub) :
  chatMessage id "main" "alice" "hi" (Rejected err) st = (st, [], RejectedWith err) ∧
  (joinRoom id room username (Rejected err) st).1.2 = [] ∧
  (joinRoom id room username (Rejected err) st).2 = RejectedWith err ∧
  onlineUsers (joinRoom id room username (Rejected err) st).1.1 = onlineUsers st.
Proof. done. Qed.

(** C3 (the code departs from the claim): [POST /rooms] neither trims the
    name nor rejects a whitespace-only one.  The name [" x "] is stored with
    its blanks, although its trimmed form is ["x"]; the name of three blanks,
    whose trimmed form is empty, is accepted and stored; and after ["x"] was
    created through the socket event, [" x "] is not taken for a duplicate. *)
Theorem C3_post_rooms_does_not_trim (stored : list message) :
  let st := initial_hub stored in
  (status (post_rooms " x " st).2 = 200 ∧
   rooms (post_rooms " x " st).1.1 = initial_rooms ++ [" x "] ∧
   trim " x " = "x" ∧ ¬ trimmed " x ") ∧
  (status (post_rooms "   " st).2 = 200 ∧
   rooms (post_rooms "   " st).1.1 = initial_rooms ++ ["   "] ∧
   trim "   " = EmptyString) ∧
  rooms (post_rooms " x " (createRoom "A" " x " true st).1).1.1 =
    initial_rooms ++ ["x"; " x "].
Proof.
  simpl. split_and!; try reflexivity.
  intros [Hfirst _]. by specialize (Hfirst " "%char eq_refl).
Qed.

(** C4 (the code departs from the claim): [general] is not one of the four
    built-in rooms and is not in the initial registry; creating it succeeds,
    but the delete that follows is refused with status 400 and the room list
    keeps the new name. *)
Theorem C4_round_trip_fails_for_general (stored : list message) :
  let st := initial_hub stored in
  let created := post_rooms "general" st in
  let deleted := delete_rooms "general" created.1.1 in
  ("general" ∉ initial_rooms) ∧ ("general" ∉ rooms st) ∧
  status created.2 = 200 ∧
  deleted.2 = Response 400 (BodyError "Default rooms cannot be deleted") ∧
  rooms deleted.1.1 = initial_rooms ++ ["general"] ∧
  rooms deleted.1.1 ≠ rooms st.
Proof.
  simpl. split_and!; try done; not_listed.
Qed.

(** ** Chat messages and typing events *)

(** C6: a chat message with an empty room, username or text changes nothing
    and emits nothing, whatever the store would have answered; otherwise,
    once the store has resolved with the stamp [created], the document is
    appended to the collection and exactly the sockets that have joined
    [room] receive [{username, text, createdAt}], each once, the sender among
    them when it has joined the room. *)
Theorem C6_chatMessage_drops_or_persists_and_broadcasts
    (id room username text : string) (reply : store_reply Z) (created : Z) (st : hub) :
  (falsy room || falsy username || falsy text = true →
   chatMessage id room username text reply st = (st, [], Fulfilled)) ∧
  (falsy room || falsy username || falsy text = false →
   let r := chatMessage id room username text (Resolved created) st in
   r.2 = Fulfilled ∧
   messages r.1.1 = messages st ++ [Message room username text created] ∧
   rooms r.1.1 = rooms st ∧ onlineUsers r.1.1 = onlineUsers st ∧
   sockets r.1.1 = sockets st ∧
   (∀ rid ev, (rid, ev) ∈ r.1.2 ↔
      ev = chatMessageEv username text created ∧
      ∃ s, sockets st !! rid = Some s ∧ room ∈ sock_rooms s) ∧
   NoDup r.1.2 ∧
   (∀ s, sockets st !! id = Some s → room ∈ sock_rooms s →
      (id, chatMessageEv username text created) ∈ r.1.2)).
Proof.
  unfold chatMessage. split; intros Hguard; rewrite Hguard; [done|]. simpl.
  split_and!; try done.
  - intros rid ev. by rewrite elem_of_io_to.
  - apply NoDup_io_to.
  - intros s Hs Hroom. apply elem_of_io_to. eauto.
Qed.

(** C7: a typing event leaves the state alone and hands [{username,
    isTyping}] to exactly the sockets that have joined [room] other than the
    sending one; the sender receives nothing. *)
Theorem C7_typing_skips_the_sender
    (id room username : string) (isTyping : bool) (st : hub) :
  let r := typing id room username isTyping st in
  r.1 = st ∧
  (∀ rid ev, (rid, ev) ∈ r.2 ↔
     ev = typingEv username isTyping ∧ rid ≠ id ∧
     ∃ s, sockets st !! rid = Some s ∧ room ∈ sock_rooms s) ∧
  (∀ ev, (id, ev) ∉ r.2).
Proof.
  simpl. split_and!; [done| |].
  - intros rid ev. apply elem_of_socket_to.
  - intros ev Hin. apply elem_of_socket_to in Hin as (_ & Hne & _). done.
Qed.

(** ** Room creation through the socket event *)

(** The event succeeds exactly when the trimmed name is non-empty and new. *)
Lemma createRoom_succeeds id name has_cb st :
  falsy (trim name) = false → trim name ∉ rooms st →
  let r := createRoom id name has_cb st in
  rooms r.1 = rooms st ++ [trim name] ∧
  onlineUsers r.1 = <[trim name := []]> (onlineUsers st) ∧
  r.2 = io_emit r.1 (roomsUpdatedEv (rooms r.1)) ++
        callback id has_cb (AckSuccess (rooms r.1)).
Proof.
  intros Hn Hnew. unfold createRoom, includes. rewrite Hn.
  by rewrite bool_decide_eq_false_2.
Qed.

(** C8: when the trimmed name is empty or already in the room list, the
    state (room list and presence table included) is untouched, nothing is
    broadcast, and the only thing sent is the error acknowledgement to the
    requesting socket, through the callback it supplied: with a callback the
    output is exactly that one acknowledgement, without one it is empty. *)
Theorem C8_createRoom_failure_is_private
    (id name : string) (has_cb : bool) (st : hub) :
  falsy (trim name) = true ∨ trim name ∈ rooms st →
  let r := createRoom id name has_cb st in
  r.1 = st ∧
  (∃ msg, r.2 = callback id has_cb (AckError msg)) ∧
  (∀ rid ev, (rid, ev) ∈ r.2 → rid = id ∧ ∃ msg, ev = ackEv (AckError msg)) ∧
  (∀ rid l, (rid, roomsUpdatedEv l) ∉ r.2) ∧
  (has_cb = true → ∃ msg, r.2 = [(id, ackEv (AckError msg))]) ∧
  (has_cb = false → r.2 = []).
Proof.
  intros Hfail. simpl.
  assert (∃ msg, createRoom id name has_cb st = (st, callback id has_cb (AckError msg)))
    as [msg ->].
  { unfold createRoom, includes. destruct (falsy (trim name)) eqn:Hn; [by eexists|].
    destruct Hfail as [?|Hin]; [done|]. rewrite bool_decide_eq_true_2 by done.
    by eexists. }
  simpl. split_and!; [done|by eexists| | | |].
  - intros rid ev Hin. destruct has_cb; simpl in Hin.
    + apply list_elem_of_singleton in Hin. simplify_eq. eauto.
    + by apply elem_of_nil in Hin.
  - intros rid l Hin. destruct has_cb; simpl in Hin.
    + apply list_elem_of_singleton in Hin. simplify_eq.
    + by apply elem_of_nil in Hin.
  - intros ->. by eexists.
  - by intros ->.
Qed.

(** ** Presence *)

Section presence.
Implicit Types (ou : gmap string (list string)) (room username : string).

Lemma presence_join_present room username ou users :
  ou !! room = Some users → username ∈ users →
  presence_join room username ou = ou.
Proof.
  intros Hou Hin. unfold presence_join, includes. rewrite Hou. simpl.
  rewrite Hou. simpl. by rewrite bool_decide_eq_true_2.
Qed.

Lemma presence_join_absent room username ou users :
  ou !! room = Some users → username ∉ users →
  presence_join room username ou = <[room := users ++ [username]]> ou.
Proof.
  intros Hou Hin. unfold presence_join, includes. rewrite Hou. simpl.
  rewrite Hou. simpl. by rewrite bool_decide_eq_false_2.
Qed.

Lemma presence_join_new room username ou :
  ou !! room = None →
  presence_join room username ou = <[room := [username]]> ou.
Proof.
  intros Hou. unfold presence_join, includes. rewrite Hou. cbv zeta.
  rewrite lookup_insert_eq. simpl.
  by rewrite insert_insert_eq.
Qed.

(** After a join the room has an entry and the user is in it. *)
Lemma presence_join_member room username ou :
  ∃ users, presence_join room username ou !! room = Some users ∧ username ∈ users.
Proof.
  destruct (ou !! room) as [users|] eqn:Hou.
  - destruct (decide (username ∈ users)) as [Hin|Hin].
    + rewrite (presence_join_present _ _ _ users) by done. eauto.
    + rewrite (presence_join_absent _ _ _ users) by done.
      rewrite lookup_insert_eq. eexists. split; [done|].
      apply elem_of_app. right. by left.
  - rewrite presence_join_new by done. rewrite lookup_insert_eq.
    eexists. split; [done|]. by left.
Qed.

Lemma presence_join_other room room' username ou :
  room ≠ room' → presence_join room username ou !! room' = ou !! room'.
Proof.
  intros Hne. unfold presence_join.
  destruct (ou !! room) eqn:Hou; simpl; case_match;
    by rewrite ?lookup_insert_ne by done.
Qed.

Lemma presence_join_idempotent room username ou :
  presence_join room username (presence_join room username ou) =
  presence_join room username ou.
Proof.
  destruct (presence_join_member room username ou) as (users & Hl & Hin).
  by eapply presence_join_present.
Qed.

Lemma reads_inherited_presence_join room username ou :
  reads_inherited room (presence_join room username ou) = false.
Proof.
  unfold reads_inherited.
  destruct (presence_join_member room username ou) as (users & Hl & _).
  rewrite bool_decide_eq_false_2; [apply andb_false_r|]. by rewrite Hl.
Qed.

Lemma reads_inherited_ordinary room ou : inherited room = false → reads_inherited room ou = false.
Proof. unfold reads_inherited. by intros ->. Qed.

Lemma reads_inherited_entry room ou (users : list string) :
  ou !! room = Some users → reads_inherited room ou = false.
Proof.
  intros Hl. unfold reads_inherited.
  rewrite bool_decide_eq_false_2; [apply andb_false_r|]. by rewrite Hl.
Qed.

(** The presence table after a [joinRoom] whose query resolved. *)
Lemma joinRoom_resolved_onlineUsers id room username (history : list message) (st : hub) :
  onlineUsers (joinRoom id room username (Resolved history) st).1.1 =
  if reads_inherited room (onlineUsers st) then onlineUsers st
  else presence_join room username (onlineUsers st).
Proof.
  unfold joinRoom, joinRoom_resume. simpl.
  by destruct (reads_inherited room (onlineUsers st)).
Qed.
End presence.

(** C9: joining a room's presence list twice with the same username gives
    the table a single join gives, so the room's list has the same members
    in the same order; a username that is already listed is not appended;
    and two [joinRoom] events in a row for the same room and username, from
    whichever sockets, leave the table as the first one made it. *)
Theorem C9_presence_join_is_idempotent
    (r u : string) (ou : gmap string (list string)) :
  presence_join r u (presence_join r u ou) = presence_join r u ou ∧
  snapshot r (presence_join r u (presence_join r u ou)) =
    snapshot r (presence_join r u ou) ∧
  (∀ users, ou !! r = Some users → u ∈ users → presence_join r u ou = ou) ∧
  (∀ id1 id2 h1 h2 st,
     let st1 := (joinRoom id1 r u (Resolved h1) st).1.1 in
     let st2 := (joinRoom id2 r u (Resolved h2) st1).1.1 in
     onlineUsers st2 = onlineUsers st1).
Proof.
  split_and!.
  - apply presence_join_idempotent.
  - by rewrite presence_join_idempotent.
  - intros users. apply presence_join_present.
  - intros. subst st1 st2. rewrite !joinRoom_resolved_onlineUsers.
    destruct (reads_inherited r (onlineUsers st)) eqn:Hproto; [by rewrite Hproto|].
    rewrite reads_inherited_presence_join. apply presence_join_idempotent.
Qed.


(** Two [joinRoom] events for the same ordinary room name and username, from
    two connected sockets, lead to a state in which both sockets carry the room and the
    username and the room's presence entry lists the username. *)
Lemma both_joined (a b r u : string) (h1 h2 : list message) (sa sb : socket) (st : hub) :
  a ≠ b → inherited r = false →
  sockets st !! a = Some sa → sockets st !! b = Some sb →
  let st1 := (joinRoom a r u (Resolved h1) st).1.1 in
  let st2 := (joinRoom b r u (Resolved h2) st1).1.1 in
  sockets st2 !! a = Some (bind_socket r u sa) ∧
  sockets st2 !! b = Some (bind_socket r u sb) ∧
  ∃ users, onlineUsers st2 !! r = Some users ∧ u ∈ users.
Proof.
  intros Hab Hr Ha Hb. cbv zeta.
  assert (∀ id h s, sockets (joinRoom id r u (Resolved h) s).1.1 =
                    alter (bind_socket r u) id (sockets s)) as Hsock.
  { intros. unfold joinRoom, joinRoom_resume. simpl. by destruct (reads_inherited _ _). }
  rewrite !Hsock, !joinRoom_resolved_onlineUsers.
  rewrite !(reads_inherited_ordinary r) by done. split_and!.
  - rewrite lookup_alter_ne by done. by rewrite lookup_alter_eq, Ha.
  - rewrite lookup_alter_eq. rewrite lookup_alter_ne by done. by rewrite Hb.
  - apply presence_join_member.
Qed.


(** ** History on join *)

Section history.
Implicit Types (m : message) (l : list message).

#[local] Instance newer_or_equal_trans : Transitive newer_or_equal.
Proof. intros x y z. unfold newer_or_equal. lia. Qed.

#[local] Instance strictly_older_trans : Transitive strictly_older.
Proof. intros x y z. unfold strictly_older. lia. Qed.

Lemma insert_desc_perm m l : insert_desc m l ≡ₚ m :: l.
Proof.
  induction l as [|x l IH]; simpl; [done|].
  case_decide; [done|]. rewrite IH. apply Permutation_swap.
Qed.

Lemma insert_desc_sorted m l :
  Sorted newer_or_equal l → Sorted newer_or_equal (insert_desc m l).
Proof.
  induction 1 as [|x l Hl IH Hhd]; simpl; [by repeat constructor|].
  case_decide as Hle.
  - repeat constructor; done.
  - constructor; [done|]. destruct Hhd as [|y l' Hxy]; simpl.
    + constructor. unfold newer_or_equal. lia.
    + case_decide; constructor; [unfold newer_or_equal; lia|done].
Qed.

(** In a list whose stamps strictly increase, the stamp identifies the
    message. *)
Lemma strictly_older_stamp_inj l m1 m2 :
  Sorted strictly_older l → m1 ∈ l → m2 ∈ l →
  createdAt m1 = createdAt m2 → m1 = m2.
Proof.
  intros Hl%Sorted_StronglySorted; [|apply _].
  induction Hl as [|x l Hl IH Hx]; intros H1 H2 Heq.
  { by apply elem_of_nil in H1. }
  rewrite Forall_forall in Hx.
  apply elem_of_cons in H1 as [->|H1], H2 as [->|H2]; [done| | |by apply IH].
  - specialize (Hx _ H2). unfold strictly_older in Hx. lia.
  - specialize (Hx _ H1). unfold strictly_older in Hx. lia.
Qed.

Lemma Sorted_weaken (R1 R2 : relation message) l :
  (∀ x y, R1 x y → R2 x y) → Sorted R1 l → Sorted R2 l.
Proof.
  intros HR. induction 1 as [|x l Hl IH Hhd]; constructor; [done|].
  destruct Hhd; constructor; auto.
Qed.

Lemma strictly_older_reverse_sorted l :
  Sorted strictly_older l → Sorted newer_or_equal (reverse l).
Proof.
  intros Hl%Sorted_reverse. eapply Sorted_weaken; [|exact Hl].
  intros x y. unfold flip, strictly_older, newer_or_equal. lia.
Qed.

(** Without equal stamps the query has one answer: the reversed log. *)
Lemma sorted_desc_unique l sorted :
  Sorted strictly_older l → sorted ≡ₚ l → Sorted newer_or_equal sorted →
  sorted = reverse l.
Proof.
  intros Hl Hperm Hsorted.
  apply (Sorted_unique_strong newer_or_equal); [|done| |].
  - intros x1 x2 H1 H2 H12 H21. apply (strictly_older_stamp_inj l); [done| | |].
    + by rewrite <-Hperm.
    + by rewrite elem_of_reverse in H2.
    + unfold newer_or_equal in *. lia.
  - by apply strictly_older_reverse_sorted.
  - by rewrite reverse_Permutation.
Qed.
Lemma sorted_prefix_suffix n sorted :
  Sorted newer_or_equal sorted →
  Sorted newer_or_equal (take n sorted) ∧
  (∀ h o, h ∈ take n sorted → o ∈ drop n sorted → newer_or_equal h o).
Proof.
  intros Hs%Sorted_StronglySorted; [|apply _].
  rewrite <-(take_drop n sorted) in Hs at 1.
  apply StronglySorted_app in Hs as (Hcross & Hpre & _).
  split; [by apply StronglySorted_Sorted|]. intros h o. apply Hcross.
Qed.

Lemma stable_sort_desc_sorts : sorts_newest_first stable_sort_desc.
Proof.
  intros l. unfold stable_sort_desc. induction l as [|m l [IHp IHs]]; simpl.
  - split; [done|constructor].
  - split; [by rewrite insert_desc_perm, IHp|by apply insert_desc_sorted].
Qed.

(** Who receives the history of a [joinRoom] whose query resolved: the
    joining socket, if it is connected. *)
Lemma joinRoom_chatHistory id room username history st rid h :
  (rid, chatHistoryEv h) ∈ (joinRoom id room username (Resolved history) st).1.2 ↔
  rid = id ∧ h = reverse history ∧ is_Some (sockets st !! id).
Proof.
  unfold joinRoom, joinRoom_resume, socket_emit, joinRoom_begin. simpl.
  assert (is_Some (alter (bind_socket room username) id (sockets st) !! id) ↔
          is_Some (sockets st !! id)) as Hconn.
  { rewrite lookup_alter_eq. apply fmap_is_Some. }
  destruct (reads_inherited room (onlineUsers st)); simpl;
    rewrite ?elem_of_app, ?elem_of_io_to; case_decide as Hc; rewrite Hconn in Hc;
    rewrite ?elem_of_cons, ?elem_of_nil; split;
    try (intros [[[= -> ->]|[]]|[[=] _]]; done);
    try (intros [[= -> ->]|[]]; done);
    try (intros [[]|[[=] _]]; done);
    try (intros []; done);
    try (intros (-> & -> & Hs); first [by left; left|by left|done]).
Qed.

(** C5 (as the code has it): the handler asks the store for the documents
    of the payload's room, newest first, 50 at most, and on a store that
    answers, the joining socket, and no other, receives one [chatHistory]
    event, carrying that answer reversed.  That list has [min 50 n] of the
    room's [n] stored messages, stamps never decreasing; no stored message of
    the room left out is newer than a delivered one; and when the room's
    stamps strictly increase in insertion order it is exactly the room's last
    50 messages in insertion order.  How messages with equal stamps are
    ordered is left to the store's sort. *)
Theorem C5_join_history_is_recent_and_chronological
    (sort : list message → list message) (id room username : string)
    (sock : socket) (st : hub) :
  sorts_newest_first sort → sockets st !! id = Some sock →
  let res := joinRoom_handler (StoreUp sort) id room username st in
  let stored := find_room room (messages st) in
  let history := reverse (take 50 (sort stored)) in
  (∀ rid h, (rid, chatHistoryEv h) ∈ res.1.2 ↔ rid = id ∧ h = history) ∧
  length history = min 50 (length stored) ∧
  Sorted older_or_equal history ∧
  (∃ older, stored ≡ₚ older ++ history ∧
     ∀ o h, o ∈ older → h ∈ history → older_or_equal o h) ∧
  (Sorted strictly_older stored →
     history = recent_in_insertion_order room 50 (messages st)).
Proof.
  intros Hsort Hs res stored history. subst res history.
  destruct (Hsort stored) as [Hperm Hsorted].
  destruct (sorted_prefix_suffix 50 (sort stored) Hsorted) as [Hpre Hcross].
  split_and!.
  - intros rid h. unfold joinRoom_handler, find_sort_limit_lean.
    rewrite joinRoom_chatHistory. rewrite Hs. fold stored.
    split; [by intros (? & ? & _)|]. intros [-> ->]. split_and!; [done..|by eexists].
  - by rewrite length_reverse, length_take, Hperm.
  - by apply Sorted_reverse in Hpre.
  - exists (drop 50 (sort stored)). split.
    + rewrite <-Hperm at 1. rewrite reverse_Permutation.
      rewrite <-(take_drop 50 (sort stored)) at 1. apply Permutation_app_comm.
    + intros o h Ho Hh. rewrite elem_of_reverse in Hh. by apply Hcross.
  - intros Hstrict. unfold recent_in_insertion_order. fold stored.
    rewrite (sorted_desc_unique stored (sort stored) Hstrict Hperm Hsorted).
    by rewrite reverse_take, length_reverse, reverse_involutive.
Qed.
End history.

(** C5 (the claim as stated fails): two messages of room [main] stored with
    the same stamp, and a store whose sort is stable, which is one way of
    sorting by [createdAt] descending.  The sort lists the earlier message
    first; after the handler's [reverse] the joining socket receives the
    later message before the earlier one, which is not the insertion order
    the claim promises for equal stamps. *)
Lemma C5_equal_stamps_arrive_in_reverse_insertion_order :
  let m1 := Message "main" "alice" "first" 100 in
  let m2 := Message "main" "bob" "second" 100 in
  let st := connect "A" (initial_hub [m1; m2]) in
  sorts_newest_first stable_sort_desc ∧
  (joinRoom_handler (StoreUp stable_sort_desc) "A" "main" "carol" st).1.2 !! 0%nat =
    Some ("A", chatHistoryEv [m2; m1]) ∧
  recent_in_insertion_order "main" 50 (messages st) = [m1; m2] ∧
  [m2; m1] ≠ recent_in_insertion_order "main" 50 (messages st).
Proof.
  cbv zeta. split_and!.
  - apply stable_sort_desc_sorts.
  - vm_compute. reflexivity.
  - reflexivity.
  - discriminate.
Qed.

(** ** The theorems at concrete inputs *)

Lemma C5_history_of_three_stored :
  let res := joinRoom_handler (StoreUp stable_sort_desc) "A" "main" "alice" three_stored in
  let history := [Message "main" "alice" "one" 10; Message "main" "bob" "three" 30] in
  sockets three_stored !! "A" = Some (fresh_socket "A") ∧
  (∀ rid h, (rid, chatHistoryEv h) ∈ res.1.2 ↔ rid = "A" ∧ h = history) ∧
  history = recent_in_insertion_order "main" 50 (messages three_stored).
Proof.
  cbv zeta.
  assert (sockets three_stored !! "A" = Some (fresh_socket "A")) as Hs
    by (vm_compute; reflexivity).
  split; [exact Hs|].
  destruct (C5_join_history_is_recent_and_chronological stable_sort_desc
              "A" "main" "alice" _ three_stored stable_sort_desc_sorts Hs)
    as (Honly & _ & _ & _ & _).
  split; [exact Honly|reflexivity].
Defined.

Lemma C6_hi_in_two_in_main :
  chatMessage "A" "main" "alice" EmptyString (Resolved 42%Z) two_in_main =
    (two_in_main, [], Fulfilled) ∧
  messages (chatMessage "A" "main" "alice" "hi" (Resolved 42%Z) two_in_main).1.1 =
    [Message "main" "alice" "hi" 42] ∧
  ("A", chatMessageEv "alice" "hi" 42) ∈
    (chatMessage "A" "main" "alice" "hi" (Resolved 42%Z) two_in_main).1.2.
Proof.
  split_and!.
  - by apply (C6_chatMessage_drops_or_persists_and_broadcasts
                "A" "main" "alice" EmptyString (Resolved 42%Z) 42%Z two_in_main).
  - by apply (C6_chatMessage_drops_or_persists_and_broadcasts
                "A" "main" "alice" "hi" (Resolved 42%Z) 42%Z two_in_main).
  - eapply (C6_chatMessage_drops_or_persists_and_broadcasts
              "A" "main" "alice" "hi" (Resolved 42%Z) 42%Z two_in_main);
      [reflexivity|vm_compute; reflexivity|compute_done].
Defined.

Lemma C8_duplicate_main_is_refused :
  let r := createRoom "A" " main " true (initial_hub []) in
  trim " main " ∈ rooms (initial_hub []) ∧
  r.1 = initial_hub [] ∧
  (∀ rid l, (rid, roomsUpdatedEv l) ∉ r.2) ∧
  ∃ msg, r.2 = [("A", ackEv (AckError msg))].
Proof.
  cbv zeta.
  assert (trim " main " ∈ rooms (initial_hub [])) as Hin by compute_done.
  split; [exact Hin|].
  destruct (C8_createRoom_failure_is_private "A" " main " true (initial_hub [])
              (or_intror Hin)) as (Hst & _ & _ & Hnone & Hack & _).
  split; [exact Hst|]. split; [exact Hnone|exact (Hack eq_refl)].
Defined.

Lemma C9_alice_joins_main_twice :
  let ou : gmap string (list string) := {[ "main" := ["bob"] ]} in
  snapshot "main" (presence_join "main" "alice" ou) = ["bob"; "alice"] ∧
  presence_join "main" "alice" (presence_join "main" "alice" ou) =
    presence_join "main" "alice" ou ∧
  presence_join "main" "bob" ou = ou.
Proof.
  cbv zeta. split_and!.
  - reflexivity.
  - apply (C9_presence_join_is_idempotent "main" "alice").
  - eapply (C9_presence_join_is_idempotent "main" "bob"); [reflexivity|compute_done].
Defined.


(** * Further properties of the routes and handlers *)

(** ** Outcomes of the room routes *)

Lemma NoDup_io_emit st ev : NoDup (io_emit st ev).
Proof.
  unfold io_emit. apply NoDup_fmap_2_strong.
  - intros [k1 s1] [k2 s2] H1 H2 Heq. simplify_eq/=.
    apply elem_of_map_to_list in H1, H2. by simplify_eq.
  - apply NoDup_map_to_list.
Qed.



(** X2: [DELETE /rooms/:name] has three outcomes.  A name of the guarded list is
    answered 400 and a name that is not in the room list 404, both with
    nothing changed and nothing emitted.  Otherwise the name leaves the room
    list (the other names keep their order), its presence entry is dropped,
    the sockets are left as they are, the new list goes once to every
    connected socket, and a second delete of the same name is answered 404. *)
Theorem delete_rooms_outcomes (name : string) (st : hub) :
  let r := delete_rooms name st in
  (name ∈ protectedRooms → r.1 = (st, []) ∧ status r.2 = 400) ∧
  (name ∉ protectedRooms → name ∉ rooms st → r.1 = (st, []) ∧ status r.2 = 404) ∧
  (name ∉ protectedRooms → name ∈ rooms st →
     r.2 = Response 200 (BodySuccess (filter (λ x, x ≠ name) (rooms st))) ∧
     rooms r.1.1 = filter (λ x, x ≠ name) (rooms st) ∧
     (name ∉ rooms r.1.1) ∧
     onlineUsers r.1.1 = delete name (onlineUsers st) ∧
     sockets r.1.1 = sockets st ∧ messages r.1.1 = messages st ∧
     (∀ rid ev, (rid, ev) ∈ r.1.2 ↔
        ev = roomsUpdatedEv (filter (λ x, x ≠ name) (rooms st)) ∧
        is_Some (sockets st !! rid)) ∧
     NoDup r.1.2 ∧
     (delete_rooms name r.1.1).1 = (r.1.1, []) ∧
     status (delete_rooms name r.1.1).2 = 404).
Proof.
  assert (name ∉ filter (λ x, x ≠ name) (rooms st)) as Hgone.
  { intros [Hne _]%list_elem_of_filter. done. }
  unfold delete_rooms, includes. cbv zeta. split_and!.
  - intros Hprot. by rewrite bool_decide_eq_true_2.
  - intros Hprot Habs. by rewrite !bool_decide_eq_false_2.
  - intros Hprot Hin.
    rewrite (bool_decide_eq_false_2 (name ∈ protectedRooms)) by done.
    rewrite (bool_decide_eq_true_2 (name ∈ rooms st)) by done. simpl.
    destruct (onlineUsers st !! name) as [users|] eqn:Hou; simpl;
      rewrite (bool_decide_eq_false_2 _ Hgone); simpl;
      split_and!; try done;
      first [ by rewrite delete_id
            | apply NoDup_io_emit
            | intros rid ev; by rewrite elem_of_io_emit ].
Qed.

Lemma delete_rooms_outcomes_at_start :
  status (delete_rooms "music" (initial_hub [])).2 = 400 ∧
  status (delete_rooms "nowhere" (initial_hub [])).2 = 404 ∧
  rooms (delete_rooms "work" (initial_hub [])).1.1 = ["main"; "chil"; "fun"].
Proof.
  split_and!.
  - destruct (delete_rooms_outcomes "music" (initial_hub [])) as (Hguard & _ & _).
    apply Hguard. compute_done.
  - destruct (delete_rooms_outcomes "nowhere" (initial_hub [])) as (_ & Habsent & _).
    apply Habsent; not_listed.
  - destruct (delete_rooms_outcomes "work" (initial_hub [])) as (_ & _ & Hdone).
    apply Hdone; [not_listed|compute_done].
Defined.

(** ** Invariants of the process state *)

Section invariants.
Implicit Types (st : hub) (t : turn) (ts : list turn).

Lemma run_app ts1 ts2 st :
  (run (ts1 ++ ts2) st).1 = (run ts2 (run ts1 st).1).1.
Proof. revert st. induction ts1 as [|t ts1 IH]; intros st; simpl; [done|]. apply IH. Qed.

(** A property kept by every turn holds after every run. *)
Lemma run_invariant (P : hub → Prop) :
  (∀ t st, P st → P (turn_step t st).1) →
  ∀ ts st, P st → P (run ts st).1.
Proof.
  intros Hstep ts. induction ts as [|t ts IH]; intros st Hst; simpl; [done|].
  apply IH, Hstep, Hst.
Qed.

(** How one turn changes the room list. *)
Lemma turn_step_rooms t st :
  rooms (turn_step t st).1 = rooms st ∨
  (∃ n, rooms (turn_step t st).1 = rooms st ++ [n] ∧ (n ∉ rooms st) ∧ falsy n = false) ∨
  (∃ n, rooms (turn_step t st).1 = filter (λ x, x ≠ n) (rooms st)).
Proof.
  destruct t as [id|id room username|id room username reply|id name cb
                |id room username text reply|id room username b|id|name|name]; simpl.
  - by left.
  - by left.
  - unfold joinRoom_resume. destruct reply; [destruct (reads_inherited _ _)|]; by left.
  - destruct (createRoom_rooms id name cb st) as [->|(-> & Hn & Hnew)]; [by left|].
    right; left. eauto.
  - unfold chatMessage. destruct (_ || _); [by left|]. destruct reply; by left.
  - by left.
  - unfold disconnect. repeat case_match; by left.
  - unfold post_rooms, includes. destruct (falsy name) eqn:Hn; [by left|].
    case_bool_decide; [by left|]. right; left. eauto.
  - destruct (delete_rooms_rooms name st) as [->|[_ ->]]; [by left|]. right; right. eauto.
Qed.

Lemma turn_step_registry_ok t st : registry_ok st → registry_ok (turn_step t st).1.
Proof.
  intros [Hnd Hne]. unfold registry_ok.
  destruct (turn_step_rooms t st) as [->|[(n & -> & Hnew & Hn)|(n & ->)]]; [done| |].
  - split.
    + apply NoDup_app. split_and!; [done| |apply NoDup_singleton].
      intros x Hx ->%list_elem_of_singleton. done.
    + intros [Hin|Hin%list_elem_of_singleton]%elem_of_app; [done|by subst].
  - split; [by apply NoDup_filter|].
    intros [_ Hin]%list_elem_of_filter. done.
Qed.

Lemma initial_registry_ok stored : registry_ok (initial_hub stored).
Proof.
  split; [|simpl; not_listed].
  simpl. unfold initial_rooms. repeat (apply NoDup_cons; split; [not_listed|]).
  apply NoDup_nil_2.
Qed.

Lemma presence_join_NoDup room username (ou : gmap string (list string)) room' users' :
  (∀ r users, ou !! r = Some users → NoDup users) →
  presence_join room username ou !! room' = Some users' → NoDup users'.
Proof.
  intros Hok. destruct (decide (room = room')) as [<-|Hne].
  - destruct (ou !! room) as [users|] eqn:Hou.
    + destruct (decide (username ∈ users)) as [Hin|Hin].
      * rewrite (presence_join_present _ _ _ users) by done. apply Hok.
      * rewrite (presence_join_absent _ _ _ users), lookup_insert_eq by done.
        intros [= <-]. apply NoDup_app. split_and!; [by eapply Hok| |apply NoDup_singleton].
        intros x Hx ->%list_elem_of_singleton. done.
    + rewrite presence_join_new, lookup_insert_eq by done.
      intros [= <-]. apply NoDup_singleton.
  - rewrite presence_join_other by done. apply Hok.
Qed.

Lemma turn_step_presence_ok t st : presence_ok st → presence_ok (turn_step t st).1.
Proof.
  intros Hok room users.
  destruct t as [id|id r username|id r username reply|id name cb
                |id r username text reply|id r username b|id|name|name]; simpl.
  - apply Hok.
  - apply Hok.
  - unfold joinRoom_resume. destruct reply as [history|err]; simpl; [|apply Hok].
    destruct (reads_inherited r (onlineUsers st)); simpl; [apply Hok|].
    by apply presence_join_NoDup.
  - unfold createRoom, includes. destruct (falsy (trim name)); [apply Hok|].
    case_bool_decide; [apply Hok|]. simpl.
    destruct (decide (trim name = room)) as [<-|Hne].
    + rewrite lookup_insert_eq. intros [= <-]. apply NoDup_nil_2.
    + rewrite lookup_insert_ne by done. apply Hok.
  - unfold chatMessage. destruct (_ || _); [apply Hok|]. destruct reply; apply Hok.
  - apply Hok.
  - unfold disconnect. destruct (sockets st !! id) as [s|]; [|apply Hok].
    destruct (sock_room s) as [r|]; [|apply Hok].
    destruct (falsy r); [apply Hok|]. simpl.
    destruct (onlineUsers st !! r) as [l|] eqn:Hl; [|apply Hok]. simpl.
    destruct (decide (r = room)) as [<-|Hne].
    + rewrite lookup_insert_eq. intros [= <-]. apply NoDup_filter. by eapply Hok.
    + rewrite lookup_insert_ne by done. apply Hok.
  - unfold post_rooms, includes. destruct (falsy name); [apply Hok|].
    case_bool_decide; [apply Hok|]. simpl.
    destruct (decide (name = room)) as [<-|Hne].
    + rewrite lookup_insert_eq. intros [= <-]. apply NoDup_nil_2.
    + rewrite lookup_insert_ne by done. apply Hok.
  - unfold delete_rooms, includes. case_bool_decide; [apply Hok|].
    case_bool_decide; simpl; [|apply Hok].
    destruct (onlineUsers st !! name) eqn:Hn; simpl; [|apply Hok].
    intros [_ Hl]%lookup_delete_Some. by eapply Hok.
Qed.

(** How one turn changes the message collection. *)
Lemma turn_step_messages t st :
  messages (turn_step t st).1 = messages st ∨
  ∃ id room username text created,
    t = TChatMessage id room username text (Resolved created) ∧
    falsy room = false ∧ falsy username = false ∧ falsy text = false ∧
    messages (turn_step t st).1 = messages st ++ [Message room username text created].
Proof.
  destruct t as [id|id r username|id r username reply|id name cb
                |id r username text reply|id r username b|id|name|name]; simpl.
  - by left.
  - by left.
  - unfold joinRoom_resume. destruct reply; [destruct (reads_inherited _ _)|]; by left.
  - unfold createRoom. repeat case_match; by left.
  - unfold chatMessage.
    destruct (falsy r) eqn:Hr; [by left|].
    destruct (falsy username) eqn:Hu; [by left|].
    destruct (falsy text) eqn:Ht; [by left|]. simpl.
    destruct reply as [created|err]; [|by left].
    right. by exists id, r, username, text, created.
  - by left.
  - unfold disconnect. repeat case_match; by left.
  - unfold post_rooms. repeat case_match; by left.
  - unfold delete_rooms. repeat case_match; by left.
Qed.

(** X3: Whatever turns the process takes after its start, in whatever order, the
    room list never holds a name twice and never holds the empty name. *)
Theorem room_list_stays_duplicate_free (stored : list message) (ts : list turn) :
  registry_ok (run ts (initial_hub stored)).1.
Proof.
  apply (run_invariant registry_ok); [apply turn_step_registry_ok|].
  apply initial_registry_ok.
Qed.

(** X4: Whatever turns the process takes after its start, no presence list ever
    holds a username twice. *)
Theorem presence_lists_stay_duplicate_free (stored : list message) (ts : list turn) :
  presence_ok (run ts (initial_hub stored)).1.
Proof.
  apply (run_invariant presence_ok); [apply turn_step_presence_ok|].
  intros room users Hl. simpl in Hl. by rewrite lookup_empty in Hl.
Qed.

(** X5: The message collection is append-only: after any run the documents that
    were stored before are still there, unchanged and in the same order, at
    the front of the collection. *)
Theorem messages_are_append_only (ts : list turn) (st : hub) :
  messages st `prefix_of` messages (run ts st).1.
Proof.
  revert st. induction ts as [|t ts IH]; intros st; simpl; [done|].
  etrans; [|apply IH].
  destruct (turn_step_messages t st) as [->|(?&?&?&?&?&_&_&_&_&->)]; [done|].
  by apply prefix_app_r.
Qed.
End invariants.

(** ** Joining, switching rooms and leaving *)

Section lifecycle.
Implicit Types (st : hub) (id room username : string) (sock : socket).


(** What [disconnect] does to the presence table: nothing, or a new list for
    the room stored on the socket. *)
Lemma disconnect_onlineUsers id st :
  (onlineUsers (disconnect id st).1 = onlineUsers st ∧ (disconnect id st).2 = []) ∨
  ∃ sock room users,
    sockets st !! id = Some sock ∧ sock_room sock = Some room ∧ falsy room = false ∧
    onlineUsers st !! room = Some users ∧
    onlineUsers (disconnect id st).1 =
      <[room := without_user (sock_username sock) users]> (onlineUsers st).
Proof.
  unfold disconnect. destruct (sockets st !! id) as [sock|] eqn:Hs; [|by left].
  destruct (sock_room sock) as [room|] eqn:Hr; [|by left].
  destruct (falsy room) eqn:Hf; [by left|]. simpl.
  destruct (onlineUsers st !! room) as [users|] eqn:Hou; [|by left].
  right. exists sock, room, users. done.
Qed.



Lemma joinRoom_sockets id room username reply st :
  sockets (joinRoom id room username reply st).1.1 =
  alter (bind_socket room username) id (sockets st).
Proof.
  unfold joinRoom, joinRoom_resume. destruct reply; [|done]. simpl.
  by destruct (reads_inherited _ _).
Qed.





Lemma disconnect_sockets id st : sockets (disconnect id st).1 = delete id (sockets st).
Proof. unfold disconnect. by repeat case_match. Qed.

Lemma disconnect_rooms_messages id st :
  rooms (disconnect id st).1 = rooms st ∧ messages (disconnect id st).1 = messages st.
Proof. unfold disconnect. by repeat case_match. Qed.



(** X8: [joinRoom] only adds to the rooms a socket is in.  After a switch from
    [r1] to [r2] the socket is bound to [r2] and still receives the chat
    messages sent to [r1]. *)
Theorem switching_rooms_keeps_old_subscription
    id (r1 r2 : string) username (h1 h2 : list message) sock
    (sender author text : string) (created : Z) st :
  sockets st !! id = Some sock →
  falsy r1 = false → falsy author = false → falsy text = false →
  let st1 := (joinRoom id r1 username (Resolved h1) st).1.1 in
  let st2 := (joinRoom id r2 username (Resolved h2) st1).1.1 in
  sockets st2 !! id ≫= sock_room = Some r2 ∧
  (id, chatMessageEv author text created) ∈
    (chatMessage sender r1 author text (Resolved created) st2).1.2.
Proof.
  intros Hs Hr Ha Ht. cbv zeta.
  assert (sockets (joinRoom id r2 username (Resolved h2)
                     (joinRoom id r1 username (Resolved h1) st).1.1).1.1 !! id =
          Some (bind_socket r2 username (bind_socket r1 username sock))) as Hbound.
  { by rewrite !joinRoom_sockets, !lookup_alter_eq, Hs. }
  rewrite Hbound. split; [done|].
  unfold chatMessage. rewrite Hr, Ha, Ht. simpl.
  apply elem_of_io_to. split; [done|]. eexists. split; [exact Hbound|].
  simpl. set_solver.
Qed.


(** X10: What [disconnect] leaves alone.  It removes the socket and nothing else
    from the sockets, keeps the room list and the collection, changes no
    presence list but the one of the room stored on the socket, never creates
    a presence entry (a deleted room stays without one), and sends presence
    lists only, never to the socket that left.  For a socket that never
    joined a room it sends nothing and leaves the presence table as it is. *)
Theorem disconnect_frame id st :
  let r := disconnect id st in
  sockets r.1 = delete id (sockets st) ∧
  rooms r.1 = rooms st ∧ messages r.1 = messages st ∧
  (∀ room, sockets st !! id ≫= sock_room ≠ Some room →
     onlineUsers r.1 !! room = onlineUsers st !! room) ∧
  (∀ room, onlineUsers st !! room = None → onlineUsers r.1 !! room = None) ∧
  (∀ rid ev, (rid, ev) ∈ r.2 → rid ≠ id ∧ ∃ users, ev = onlineUsersEv users) ∧
  (sockets st !! id ≫= sock_room = None → r.2 = [] ∧ onlineUsers r.1 = onlineUsers st).
Proof.
  cbv zeta. destruct (disconnect_rooms_messages id st) as [-> ->].
  rewrite disconnect_sockets. split_and!; try done.
  - intros room Hroom.
    destruct (disconnect_onlineUsers id st)
      as [[-> _]|(sock & r & users & Hs & Hr & _ & _ & ->)]; [done|].
    rewrite Hs in Hroom. simpl in Hroom. rewrite lookup_insert_ne; [done|].
    intros ->. by apply Hroom.
  - intros room Hnone.
    destruct (disconnect_onlineUsers id st)
      as [[-> _]|(sock & r & users & _ & _ & _ & Hou & ->)]; [done|].
    rewrite lookup_insert_ne; [done|]. intros ->. by rewrite Hou in Hnone.
  - intros rid ev. unfold disconnect.
    repeat case_match; try (by intros ?%elem_of_nil).
    intros [-> (receiver & Hl & _)]%elem_of_io_to. split; [|by eexists].
    intros ->. simpl in Hl. by rewrite lookup_delete_eq in Hl.
  - intros Hnone. unfold disconnect.
    destruct (sockets st !! id) as [sock|]; [|done]. simpl in Hnone.
    by rewrite Hnone.
Qed.

(** When the handler throws, the socket is gone and nothing else happened. *)
Lemma disconnect_throws_nothing_else id st :
  disconnect_throws id st = true →
  disconnect id st = (set_sockets (delete id (sockets st)) st, []).
Proof.
  unfold disconnect_throws, disconnect, reads_inherited.
  destruct (sockets st !! id) as [sock|]; simpl; [|done].
  destruct (sock_room sock) as [room|]; [|done].
  destruct (falsy room); [done|]. simpl.
  intros [_ Hnone%bool_decide_eq_true]%andb_true_iff. by rewrite Hnone.
Qed.
End lifecycle.

(** ** Room names through the socket event *)

Lemma trimStart_trimmed s : trimmed s → trimStart s = s.
Proof.
  intros [Hfirst _]. destruct s as [|c s]; simpl; [done|].
  by rewrite (Hfirst c eq_refl).
Qed.

Lemma trimEnd_trimmed s : trimmed s → trimEnd s = s.
Proof.
  intros [_ Hlast]. induction s as [|c s IH]; simpl; [done|].
  simpl in Hlast. destruct s as [|d s].
  - simpl. by rewrite (Hlast c eq_refl).
  - rewrite IH; [done|]. intros e He. apply Hlast.
    destruct (last_char (String d s)); by simplify_eq.
Qed.

Lemma trim_idempotent s : trim (trim s) = trim s.
Proof.
  pose proof (trim_trimmed s) as Ht. unfold trim at 1.
  by rewrite trimStart_trimmed, trimEnd_trimmed.
Qed.

Lemma createRoom_refuses_listed id name has_cb st :
  falsy (trim name) = false → trim name ∈ rooms st →
  createRoom id name has_cb st = (st, callback id has_cb (AckError "Room already exists")).
Proof.
  intros Hn Hin. unfold createRoom, includes. rewrite Hn.
  by rewrite bool_decide_eq_true_2.
Qed.

(** X11: Through the socket event a room name is the same whatever whitespace
    surrounds it: the handler does on [name] exactly what it does on the
    trimmed name, and after a create that went through, a create of any
    name with the same trimmed form changes nothing and sends no room
    list. *)
Theorem createRoom_ignores_surrounding_whitespace
    (id name : string) (has_cb : bool) (st : hub) :
  createRoom id name has_cb st = createRoom id (trim name) has_cb st ∧
  (∀ id' name' has_cb',
     trim name' = trim name → falsy (trim name) = false →
     let st1 := (createRoom id name has_cb st).1 in
     let again := createRoom id' name' has_cb' st1 in
     again.1 = st1 ∧
     again.2 = callback id' has_cb' (AckError "Room already exists")).
Proof.
  split.
  - unfold createRoom. by rewrite trim_idempotent.
  - intros id' name' has_cb' Heq Hn. cbv zeta.
    assert (trim name ∈ rooms (createRoom id name has_cb st).1) as Hin.
    { unfold createRoom, includes. rewrite Hn. case_bool_decide; simpl; [done|].
      apply elem_of_app. right. by left. }
    rewrite <-Heq in Hn, Hin.
    by rewrite (createRoom_refuses_listed id' name' has_cb' _ Hn Hin).
Qed.

Lemma createRoom_x_then_padded_x :
  let st1 := (createRoom "A" "x" true (initial_hub [])).1 in
  rooms st1 = initial_rooms ++ ["x"] ∧
  createRoom "B" "  x " true st1 = (st1, [("B", ackEv (AckError "Room already exists"))]).
Proof.
  cbv zeta. split; [reflexivity|].
  destruct (createRoom_ignores_surrounding_whitespace "A" "x" true (initial_hub []))
    as [_ Hagain].
  destruct (Hagain "B" "  x " true eq_refl eq_refl) as [Hst Hout].
  apply injective_projections; [exact Hst|exact Hout].
Defined.





(** ** History over REST, and history after a send *)

Section more_history.
Implicit Types (m : message) (coll docs : list message).

#[local] Instance newer_or_equal_transitive : Transitive newer_or_equal.
Proof. intros x y z. unfold newer_or_equal. lia. Qed.

Lemma history_limit_default query : falsy query = true → history_limit query = Some 50%Z.
Proof. intros Hq. unfold history_limit. by rewrite Hq. Qed.

Lemma history_limit_capped query v : history_limit query = Some v → (v ≤ 200)%Z.
Proof.
  unfold history_limit. intros (x & _ & ->)%fmap_Some. lia.
Qed.

(** X14: [GET /rooms/:room/messages].  Without a [limit] parameter the limit
    is 50, and a numeric limit is never above 200.  For a limit of at least 1
    the route asks the store for the documents of the path's room, newest
    first, cut at the limit, and answers with that result reversed: only
    messages of the room, at most 200 and at most the limit, as many as the
    room has below that, stamps never decreasing.  A failing store is not
    caught: the route ends without an answer. *)
Theorem history_route_is_capped_and_chronological
    (sort : list message → list message) (room query : string) (v : Z) coll :
  sorts_newest_first sort → history_limit query = Some v → (1 ≤ v)%Z →
  let docs := reverse (take (Z.to_nat v) (sort (find_room room coll))) in
  (falsy query = true → v = 50%Z) ∧ (v ≤ 200)%Z ∧
  get_messages_route (StoreUp sort) room query coll = Some (Some docs, Fulfilled) ∧
  (∀ err, get_messages_route (StoreDown err) room query coll =
            Some (None, RejectedWith err)) ∧
  length docs = min (Z.to_nat v) (length (find_room room coll)) ∧
  (length docs ≤ 200)%nat ∧
  Sorted older_or_equal docs ∧
  (∀ m, m ∈ docs → msg_room m = room).
Proof.
  intros Hsort Hlimit Hpos. cbv zeta.
  destruct (Hsort (find_room room coll)) as [Hperm Hsorted].
  pose proof (history_limit_capped _ _ Hlimit) as Hcap.
  destruct (sorted_prefix_suffix (Z.to_nat v) _ Hsorted) as [Hpre _].
  assert (length (reverse (take (Z.to_nat v) (sort (find_room room coll)))) =
          min (Z.to_nat v) (length (find_room room coll))) as Hlen.
  { by rewrite length_reverse, length_take, Hperm. }
  split_and!; [|done| | |done| | |].
  - intros Hq. rewrite (history_limit_default _ Hq) in Hlimit. by simplify_eq.
  - unfold get_messages_route. rewrite Hlimit. by rewrite decide_True.
  - intros err. unfold get_messages_route. rewrite Hlimit. by rewrite decide_True.
  - rewrite Hlen. lia.
  - by apply Sorted_reverse in Hpre.
  - intros m Hm. rewrite elem_of_reverse in Hm.
    assert (m ∈ find_room room coll) as Hin.
    { rewrite <-Hperm. by apply (subseteq_take (Z.to_nat v)). }
    by apply list_elem_of_filter in Hin as [? _].
Qed.

Lemma history_route_on_three_stored :
  history_limit "1" = Some 1%Z ∧
  history_limit "9999" = Some 200%Z ∧
  get_messages_route (StoreUp stable_sort_desc) "main" "1" (messages three_stored) =
    Some (Some [Message "main" "bob" "three" 30], Fulfilled).
Proof.
  split_and!; [reflexivity|reflexivity|].
  by destruct (history_route_is_capped_and_chronological stable_sort_desc
                 "main" "1" 1 (messages three_stored) stable_sort_desc_sorts
                 eq_refl ltac:(lia)) as (_ & _ & Hroute & _).
Defined.

Lemma find_room_snoc room coll m :
  msg_room m = room → find_room room (coll ++ [m]) = find_room room coll ++ [m].
Proof.
  intros Hm. unfold find_room. by rewrite filter_app, filter_cons_True, filter_nil.
Qed.

(** The newest document heads every arrangement the sort admits. *)
Lemma newest_is_first stored sorted m :
  (∀ x, x ∈ stored → (createdAt x < createdAt m)%Z) →
  sorted ≡ₚ stored ++ [m] → Sorted newer_or_equal sorted →
  ∃ rest, sorted = m :: rest.
Proof.
  intros Hnewest Hperm Hsorted.
  destruct sorted as [|x rest].
  { apply Permutation_nil in Hperm. by destruct stored. }
  exists rest. f_equal.
  apply Sorted_StronglySorted in Hsorted; [|apply _].
  apply StronglySorted_cons in Hsorted as [Hx _]. rewrite Forall_forall in Hx.
  assert (x ∈ stored ++ [m]) as Hxin by (rewrite <-Hperm; by left).
  apply elem_of_app in Hxin as [Hxin|Hxin%list_elem_of_singleton]; [|done].
  assert (m ∈ x :: rest) as Hmin.
  { rewrite Hperm. apply elem_of_app. right. by left. }
  apply elem_of_cons in Hmin as [->|Hmin]; [done|].
  specialize (Hx _ Hmin). specialize (Hnewest _ Hxin).
  unfold newer_or_equal in Hx. lia.
Qed.

(** X15: A chat message stamped later than everything stored for its room is
    the last entry of the history that the next [joinRoom] of the room
    delivers to a connected joining socket, whatever way the store orders
    equal stamps. *)
Theorem sent_message_ends_the_next_history
    (sort : list message → list message)
    (sender joiner room author text username : string) (created : Z)
    (sock : socket) (st : hub) :
  sorts_newest_first sort → sockets st !! joiner = Some sock →
  falsy room = false → falsy author = false → falsy text = false →
  (∀ m, m ∈ find_room room (messages st) → (createdAt m < created)%Z) →
  let st1 := (chatMessage sender room author text (Resolved created) st).1.1 in
  ∃ history,
    (joiner, chatHistoryEv history) ∈
      (joinRoom_handler (StoreUp sort) joiner room username st1).1.2 ∧
    last history = Some (Message room author text created).
Proof.
  intros Hsort Hs Hr Ha Ht Hnewest. cbv zeta.
  unfold chatMessage. rewrite Hr, Ha, Ht. simpl.
  set (st1 := set_messages _ st).
  exists (reverse (take 50 (sort (find_room room (messages st1))))). split.
  - unfold joinRoom_handler, find_sort_limit_lean. apply joinRoom_chatHistory.
    split_and!; [done|done|]. subst st1. simpl. by rewrite Hs.
  - destruct (Hsort (find_room room (messages st1))) as [Hperm Hsorted].
    subst st1. simpl in *. unfold insert_message in *.
    rewrite find_room_snoc in Hperm, Hsorted |- * by done.
    destruct (newest_is_first _ _ (Message room author text created)
                Hnewest Hperm Hsorted) as [rest ->].
    simpl. rewrite reverse_cons. apply last_snoc.
Qed.

Lemma sent_message_ends_history_of_three_stored :
  let st1 := (chatMessage "A" "main" "carol" "four" (Resolved 40%Z) three_stored).1.1 in
  ∃ history,
    ("A", chatHistoryEv history) ∈
      (joinRoom_handler (StoreUp stable_sort_desc) "A" "main" "dave" st1).1.2 ∧
    last history = Some (Message "main" "carol" "four" 40).
Proof.
  cbv zeta.
  apply (sent_message_ends_the_next_history stable_sort_desc
           "A" "A" "main" "carol" "four" "dave" 40%Z (fresh_socket "A") three_stored
           stable_sort_desc_sorts);
    [vm_compute; reflexivity|reflexivity..|].
  intros m Hm. vm_compute in Hm.
  repeat (apply elem_of_cons in Hm as [->|Hm]; [done|]). by apply elem_of_nil in Hm.
Defined.
End more_history.

(** ** Authentication routes *)

Section auth.
Implicit Types (username password : string) (email : option string).




Lemma falsy_length s : falsy s = true → String.length s = 0.
Proof. by destruct s. Qed.

(** X18: [POST /auth/guest].  The name is trimmed first; the answer is 400, with
    no call made, exactly when the trimmed name has fewer than 3 characters.
    Otherwise the one call is the signing of a 7-day token for the id
    [guest:] followed by the trimmed name, and when it goes through the
    answer is 200 with that id and the trimmed name, which has no whitespace
    at either end.  The [User] collection is never consulted. *)
Theorem guest_outcomes username (token : store_reply string) :
  let r := guest username token in
  let n := trim username in
  (auth_status r.2 = 400 ↔ (String.length n < 3)%nat) ∧
  ((String.length n < 3)%nat → r.1 = []) ∧
  ((3 ≤ String.length n)%nat →
     r.1 = [CallSignToken (String.append "guest:" n) n (Some "7d")] ∧ trimmed n ∧
     ∀ t, token = Resolved t →
       r.2 = AuthResponse 200 (AuthSession t (String.append "guest:" n) n None)).
Proof.
  cbv zeta. unfold guest.
  destruct (falsy (trim username)) eqn:Hf; simpl.
  - apply falsy_length in Hf. rewrite Hf. split_and!; [split; [lia|done]|done|lia].
  - destruct (Nat.ltb_spec (String.length (trim username)) 3) as [Hlt|Hge].
    + split_and!; [done|done|lia].
    + split_and!.
      * destruct token; simpl; split; [done|lia|done|lia].
      * lia.
      * intros _. split_and!; [by destruct token|apply trim_trimmed|].
        by intros t ->.
Qed.



Lemma guest_outcomes_padded_bob :
  (guest "  bob " (Resolved "jwt")).2 =
    AuthResponse 200 (AuthSession "jwt" "guest:bob" "bob" None) ∧
  auth_status (guest " ab " (Resolved "jwt")).2 = 400.
Proof.
  split.
  - destruct (guest_outcomes "  bob " (Resolved "jwt")) as (_ & _ & Hok).
    destruct Hok as (_ & _ & Hok); [vm_compute; lia|]. by apply Hok.
  - destruct (guest_outcomes " ab " (Resolved "jwt")) as (Hshort & _).
    apply Hshort. vm_compute. lia.
Defined.
End auth.

(** ** Sockets across turns *)

Section sockets_across_turns.
Implicit Types (st : hub) (id room username : string).

(** How one turn changes the connected sockets. *)
Lemma turn_step_sockets t st :
  sockets (turn_step t st).1 = sockets st ∨
  (∃ id, sockets (turn_step t st).1 = <[id := fresh_socket id]> (sockets st)) ∨
  (∃ id room username,
     sockets (turn_step t st).1 = alter (bind_socket room username) id (sockets st)) ∨
  (∃ id, sockets (turn_step t st).1 = delete id (sockets st)).
Proof.
  destruct t as [id|id r username|id r username reply|id name cb
                |id r username text reply|id r username b|id|name|name]; simpl.
  - right; left. by exists id.
  - right; right; left. by exists id, r, username.
  - unfold joinRoom_resume. destruct reply; [destruct (reads_inherited _ _)|]; by left.
  - unfold createRoom. repeat case_match; by left.
  - unfold chatMessage. destruct (_ || _); [by left|]. destruct reply; by left.
  - by left.
  - right; right; right. exists id. apply disconnect_sockets.
  - unfold post_rooms. repeat case_match; by left.
  - unfold delete_rooms. repeat case_match; by left.
Qed.

Lemma turn_step_sockets_ok t st : sockets_ok st → sockets_ok (turn_step t st).1.
Proof.
  intros Hok id s.
  destruct (turn_step_sockets t st)
    as [->|[[k ->]|[(k & r & u & ->)|[k ->]]]].
  - apply Hok.
  - destruct (decide (k = id)) as [->|Hne].
    + rewrite lookup_insert_eq. intros [= <-]. simpl. split; [set_solver|done].
    + rewrite lookup_insert_ne by done. apply Hok.
  - destruct (decide (k = id)) as [->|Hne].
    + rewrite lookup_alter_eq. destruct (sockets st !! id) as [s0|] eqn:Hs0; [|done].
      simpl. intros [= <-]. simpl. destruct (Hok id s0 Hs0) as [Hown _].
      split; [set_solver|]. intros room [= <-]. set_solver.
    + rewrite lookup_alter_ne by done. apply Hok.
  - intros [_ Hs]%lookup_delete_Some. by apply Hok.
Qed.

(** X19: Whatever turns the process takes after its start, a connected socket
    is in the room named by its own id and in the room it carries, so the
    broadcasts to either reach it: [joinRoom] only ever adds rooms to a
    socket. *)
Theorem bound_sockets_are_in_their_room (stored : list message) (ts : list turn) :
  sockets_ok (run ts (initial_hub stored)).1.
Proof.
  apply (run_invariant sockets_ok); [apply turn_step_sockets_ok|].
  intros id s Hs. simpl in Hs. by rewrite lookup_empty in Hs.
Qed.

End sockets_across_turns.

(** ** The further theorems at concrete inputs *)

Lemma socket_A_of_three_stored : sockets three_stored !! "A" = Some (fresh_socket "A").
Proof. vm_compute. reflexivity. Defined.



Lemma main_still_heard_after_switching_to_work :
  let st1 := (joinRoom "A" "main" "alice" (Resolved []) three_stored).1.1 in
  let st2 := (joinRoom "A" "work" "alice" (Resolved []) st1).1.1 in
  ("A", chatMessageEv "bob" "hi" 99) ∈
    (chatMessage "B" "main" "bob" "hi" (Resolved 99%Z) st2).1.2.
Proof.
  cbv zeta.
  by destruct (switching_rooms_keeps_old_subscription
                 "A" "main" "work" "alice" [] [] _ "B" "bob" "hi" 99%Z three_stored
                 socket_A_of_three_stored eq_refl eq_refl eq_refl) as [_ Hsent].
Defined.


